(** * Bohmian trajectory engine (phys-eng-bohm.js): model and properties

    The engine is one JavaScript module, [BohmianEngine], with complex
    arithmetic helpers, a Gaussian wave packet and its gradient, and the
    Euler loop [runSimulation].

    Numbers.  JavaScript numbers are IEEE 754 binary64 values.  They are
    modelled by Rocq's primitive floats, which are the same format with the
    same round-to-nearest-even arithmetic, so [+], [-], [*], [/] below
    compute what the engine computes, bit for bit.  The strict equality
    [===] on numbers is [PrimFloat.eqb] (written [=?]): it identifies [+0]
    and [-0] and is false on [NaN]; [<] is [<?].  [Math.exp], [Math.cos] and
    [Math.sin] are left to the host by ECMAScript
    ("implementation-approximated"): they are a parameter, [MathLib], and
    every statement holds for every host unless it says otherwise.

    Objects.  The functions are given twice.  [runSimulation] takes the
    configuration as a value and returns the trajectory as a list; it is the
    engine read as a function.  [runSimulationS] runs the same statements on
    a store of objects addressed by references, where [config] and its
    records can be told apart from the copy the loop writes to.  The two
    agree ([runSimulationS_run]). *)

Set Warnings "-inexact-float".
From Stdlib Require Import ZArith List Lia Bool.
From Stdlib Require Import Floats.
From stdpp Require Import base option gmap.
Import ListNotations.

Local Open Scope float_scope.

(** ** The host's [Math] object *)

Record MathLib : Type := mkMath {
  Math_exp : float -> float;
  Math_cos : float -> float;
  Math_sin : float -> float
}.

(** The values ECMAScript fixes exactly (sections on Math.exp, Math.cos and
    Math.sin): at a zero of either sign. *)
Record ecma_zero_values (M : MathLib) : Prop := {
  exp_pos_zero : Math_exp M zero = one;
  exp_neg_zero : Math_exp M neg_zero = one;
  cos_pos_zero : Math_cos M zero = one;
  cos_neg_zero : Math_cos M neg_zero = one;
  sin_pos_zero : Math_sin M zero = zero;
  sin_neg_zero : Math_sin M neg_zero = neg_zero
}.

(** A small stand-in for a host's [Math] object, built from low-order
    approximations.  It only serves to write closed examples: it has the
    values ECMAScript fixes at zero, and its [exp] is [0] at [-Infinity]. *)
Definition sampleMath : MathLib :=
  {| Math_exp := fun v => 1 / (1 - v * (1 - v / 2));
     Math_cos := fun v => 1 - v * v / 2;
     Math_sin := fun v => v * (1 - v * v / 6) |}.

(** ** Part 1: complex number helpers *)

Record Complex : Type := mkComplex { re : float; im : float }.

(* const complex = (re = 0, im = 0) => ({ re, im }); *)
Definition complex (re im : float) : Complex := mkComplex re im.

Definition add (a b : Complex) : Complex :=
  complex (re a + re b) (im a + im b).

Definition multiply (a b : Complex) : Complex :=
  complex (re a * re b - im a * im b)
          (re a * im b + im a * re b).

Definition divide (a b : Complex) : Complex :=
  let denominator := re b * re b + im b * im b in
  if denominator =? 0 then
    complex 0 0
  else
    complex ((re a * re b + im a * im b) / denominator)
            ((im a * re b - re a * im b) / denominator).

(** ** Part 2: the wave function *)

Definition H_BAR : float := 1.
Definition MASS : float := 1.

Record PacketParams : Type := mkPacket {
  centerX : float;
  centerY : float;
  width : float;
  momentumX : float;
  momentumY : float
}.

(** ** Data of a run *)

Record Position : Type := mkPosition { pos_x : float; pos_y : float }.

(** A trajectory entry [{t, x, y}]. *)
Record TrajectoryPoint : Type := mkPoint {
  pt_t : float;
  pt_x : float;
  pt_y : float
}.

(** The documented shape of [config].  [steps] is the integer the loop
    counter [i] is compared with. *)
Record Config : Type := mkConfig {
  initialPosition : Position;
  slit1 : PacketParams;
  slit2 : PacketParams;
  dt : float;
  steps : Z
}.

(** ** The object store

    [config], [config.initialPosition], [config.slit1] and [config.slit2]
    are objects that the caller keeps; [{ ...initialPosition }] allocates
    the one object the loop writes to.  The store maps references to
    objects; a computation threads the store and fails ([None]) where the
    engine would read a property of something that is not there. *)

Inductive object : Type :=
  | PositionObj (p : Position)
  | PacketObj (p : PacketParams)
  | ConfigObj (initialPositionRef slit1Ref slit2Ref : positive)
      (dtVal : float) (stepsVal : Z).

Definition Run (A : Type) : Type :=
  gmap positive object -> option (A * gmap positive object).

Definition ret {A : Type} (a : A) : Run A := fun st => Some (a, st).

Definition bind {A B : Type} (m : Run A) (k : A -> Run B) : Run B :=
  fun st => match m st with
            | Some (a, st') => k a st'
            | None => None
            end.

Notation "'do' x <- m ; k" := (bind m (fun x => k))
  (at level 10, x name, m at level 100, k at level 200, only parsing).

Definition readPosition (l : positive) : Run Position :=
  fun st => match st !! l with
            | Some (PositionObj p) => Some (p, st)
            | _ => None
            end.

Definition readPacket (l : positive) : Run PacketParams :=
  fun st => match st !! l with
            | Some (PacketObj p) => Some (p, st)
            | _ => None
            end.

(** [const { initialPosition, slit1, slit2, dt, steps } = config;] *)
Definition readConfig (l : positive)
  : Run (positive * positive * positive * float * Z) :=
  fun st => match st !! l with
            | Some (ConfigObj ip r1 r2 d n) => Some ((ip, r1, r2, d, n), st)
            | _ => None
            end.

(** A new object, at a reference the store does not use yet. *)
Definition alloc (o : object) : Run positive :=
  fun st => let l := fresh (dom st) in Some (l, <[l := o]> st).

(** [obj.x += d] and [obj.y += d]: read the property, write the sum. *)
Definition addToX (l : positive) (d : float) : Run unit :=
  fun st => match st !! l with
            | Some (PositionObj p) =>
                Some (tt, <[l := PositionObj (mkPosition (pos_x p + d) (pos_y p))]> st)
            | _ => None
            end.

Definition addToY (l : positive) (d : float) : Run unit :=
  fun st => match st !! l with
            | Some (PositionObj p) =>
                Some (tt, <[l := PositionObj (mkPosition (pos_x p) (pos_y p + d))]> st)
            | _ => None
            end.

Section Engine.

Variable M : MathLib.

Definition gaussianPacket (x y : float) (params : PacketParams) : Complex :=
  let widthSq := width params * width params in
  let dx := x - centerX params in
  let dy := y - centerY params in
  let magnitude := Math_exp M (- (dx * dx + dy * dy) / (4 * widthSq)) in
  let phaseAngle := (momentumX params * dx + momentumY params * dy) / H_BAR in
  let phase := complex (Math_cos M phaseAngle) (Math_sin M phaseAngle) in
  multiply (complex magnitude 0) phase.

(** The two-element array [[dPsi_dx, dPsi_dy]] is a pair. *)
Definition gaussianPacketGradient (x y : float) (params : PacketParams)
  : Complex * Complex :=
  let widthSq := width params * width params in
  let psi := gaussianPacket x y params in
  let d_dx_term :=
    complex (- (x - centerX params) / (2 * widthSq)) (momentumX params / H_BAR) in
  let d_dy_term :=
    complex (- (y - centerY params) / (2 * widthSq)) (momentumY params / H_BAR) in
  let dPsi_dx := multiply psi d_dx_term in
  let dPsi_dy := multiply psi d_dy_term in
  (dPsi_dx, dPsi_dy).

(** ** Part 3: the guiding equation and the simulation loop *)

(** Steps 1 to 4 of the loop body: the names are the body's constants. *)
Definition totalPsi (s1 s2 : PacketParams) (x y : float) : Complex :=
  let psi1 := gaussianPacket x y s1 in
  let psi2 := gaussianPacket x y s2 in
  add psi1 psi2.

Definition totalGradPsi (s1 s2 : PacketParams) (x y : float)
  : Complex * Complex :=
  let grad1 := gaussianPacketGradient x y s1 in
  let grad2 := gaussianPacketGradient x y s2 in
  (add (fst grad1) (fst grad2), add (snd grad1) (snd grad2)).

Definition velocityX (s1 s2 : PacketParams) (x y : float) : float :=
  let velocityTermX := divide (fst (totalGradPsi s1 s2 x y)) (totalPsi s1 s2 x y) in
  (H_BAR / MASS) * im velocityTermX.

Definition velocityY (s1 s2 : PacketParams) (x y : float) : float :=
  let velocityTermY := divide (snd (totalGradPsi s1 s2 x y)) (totalPsi s1 s2 x y) in
  (H_BAR / MASS) * im velocityTermY.

(** One pass through the body of the [for] loop: the new time, the new
    position. *)
Definition eulerStep (s1 s2 : PacketParams) (dt : float)
  (currentTime : float) (currentPosition : Position) : float * Position :=
  let x := pos_x currentPosition in
  let y := pos_y currentPosition in
  let vx := velocityX s1 s2 x y in
  let vy := velocityY s1 s2 x y in
  (currentTime + dt, mkPosition (x + vx * dt) (y + vy * dt)).

(** The [for] loop with [n] iterations left; [trajectory.push] appends. *)
Fixpoint simulationLoop (n : nat) (s1 s2 : PacketParams) (dt : float)
  (currentTime : float) (currentPosition : Position)
  (trajectory : list TrajectoryPoint) : list TrajectoryPoint :=
  match n with
  | O => trajectory
  | S n' =>
      let '(currentTime', currentPosition') :=
        eulerStep s1 s2 dt currentTime currentPosition in
      simulationLoop n' s1 s2 dt currentTime' currentPosition'
        (trajectory ++
           [mkPoint currentTime' (pos_x currentPosition') (pos_y currentPosition')])
  end.

(** [for (let i = 0; i < steps; i++)] runs [steps] times for a positive
    integer [steps] and not at all otherwise: [Z.to_nat steps] times (the
    counter is exact as long as [steps] is below 2^53). *)
Definition runSimulation (config : Config) : list TrajectoryPoint :=
  let currentTime := 0 in
  let currentPosition := initialPosition config in
  let trajectory :=
    [mkPoint currentTime (pos_x currentPosition) (pos_y currentPosition)] in
  simulationLoop (Z.to_nat (steps config)) (slit1 config) (slit2 config)
    (dt config) currentTime currentPosition trajectory.

(** The run on the object store: the loop and the entry point. *)

Fixpoint simulationLoopS (n : nat) (slit1Ref slit2Ref : positive) (dt : float)
  (currentTime : float) (currentPosition : positive)
  (trajectory : list TrajectoryPoint) : Run (list TrajectoryPoint) :=
  match n with
  | O => ret trajectory
  | S n' =>
      do p <- readPosition currentPosition;
      let x := pos_x p in
      let y := pos_y p in
      do s1 <- readPacket slit1Ref;
      do s2 <- readPacket slit2Ref;
      let vx := velocityX s1 s2 x y in
      let vy := velocityY s1 s2 x y in
      do _ <- addToX currentPosition (vx * dt);
      do _ <- addToY currentPosition (vy * dt);
      let currentTime' := currentTime + dt in
      do p' <- readPosition currentPosition;
      simulationLoopS n' slit1Ref slit2Ref dt currentTime' currentPosition
        (trajectory ++ [mkPoint currentTime' (pos_x p') (pos_y p')])
  end.

Definition runSimulationS (config : positive) : Run (list TrajectoryPoint) :=
  do c <- readConfig config;
  let '(initialPositionRef, slit1Ref, slit2Ref, dt, steps) := c in
  let currentTime := 0 in
  do p0 <- readPosition initialPositionRef;
  do currentPosition <- alloc (PositionObj p0);
  do p <- readPosition currentPosition;
  let trajectory := [mkPoint currentTime (pos_x p) (pos_y p)] in
  simulationLoopS (Z.to_nat steps) slit1Ref slit2Ref dt currentTime
    currentPosition trajectory.

End Engine.

(** ** Statement vocabulary *)

(** A positive real number: greater than zero and not [Infinity] (the
    specification takes every input to be a finite real). *)
Definition positive_real (v : float) : Prop :=
  (0 <? v) = true /\ (v <? infinity) = true.

Record valid_config (config : Config) : Prop := {
  valid_width1 : positive_real (width (slit1 config));
  valid_width2 : positive_real (width (slit2 config));
  valid_dt : positive_real (dt config);
  valid_steps : (0 <= steps config)%Z
}.

Definition invalid_config (config : Config) : Prop :=
  (width (slit1 config) <=? 0) = true \/
  (width (slit2 config) <=? 0) = true \/
  (dt config <=? 0) = true \/
  (steps config < 0)%Z.

(** The first trajectory entry of a run. *)
Definition initialSample (config : Config) : TrajectoryPoint :=
  mkPoint 0 (pos_x (initialPosition config)) (pos_y (initialPosition config)).

Definition pointOf (st : float * Position) : TrajectoryPoint :=
  mkPoint (fst st) (pos_x (snd st)) (pos_y (snd st)).

(** The time and position after [k] passes through the loop body. *)
Fixpoint stateAfter (M : MathLib) (k : nat) (s1 s2 : PacketParams) (dt : float)
  (currentTime : float) (currentPosition : Position) : float * Position :=
  match k with
  | O => (currentTime, currentPosition)
  | S k' =>
      let '(currentTime', currentPosition') :=
        eulerStep M s1 s2 dt currentTime currentPosition in
      stateAfter M k' s1 s2 dt currentTime' currentPosition'
  end.

(** The entries that [n] iterations push. *)
Fixpoint laterPoints (M : MathLib) (n : nat) (s1 s2 : PacketParams) (dt : float)
  (currentTime : float) (currentPosition : Position) : list TrajectoryPoint :=
  match n with
  | O => []
  | S n' =>
      let '(currentTime', currentPosition') :=
        eulerStep M s1 s2 dt currentTime currentPosition in
      mkPoint currentTime' (pos_x currentPosition') (pos_y currentPosition')
        :: laterPoints M n' s1 s2 dt currentTime' currentPosition'
  end.

(** [currentTime] after [k] iterations: [dt] added [k] times to [0], each
    sum rounded. *)
Fixpoint clock (k : nat) (dt : float) : float :=
  match k with
  | O => 0
  | S k' => clock k' dt + dt
  end.

(** Two numbers that [===] cannot tell apart, or the same value. *)
Definition sameNumber (a b : float) : Prop := a = b \/ (a =? b) = true.

(** ** Vocabulary for binary64 values

    [Prim2SF] gives the sign, mantissa and exponent of a float; the
    predicates below are read on that view. *)

Definition SFisZero (x : spec_float) : Prop :=
  match x with S754_zero _ => True | _ => False end.

(** Zero or finite: a real number. *)
Definition SFisReal (x : spec_float) : Prop :=
  match x with S754_zero _ | S754_finite _ _ _ => True | _ => False end.

(** Not [NaN] and not negative. *)
Definition SFnonneg (x : spec_float) : Prop :=
  match x with
  | S754_nan => False
  | S754_zero _ => True
  | S754_infinity s | S754_finite s _ _ => s = false
  end.


(** Rounding a non-negative mantissa never yields [NaN], and keeps the sign. *)
Definition SFsigned (s : bool) (x : spec_float) : Prop :=
  match x with
  | S754_nan => False
  | S754_zero s' | S754_infinity s' | S754_finite s' _ _ => s' = s
  end.

(** Neither [NaN] nor an infinity. *)
Definition finite (v : float) : Prop := (abs v <? infinity) = true.

Definition finite_complex (c : Complex) : Prop := finite (re c) /\ finite (im c).

(** ** The specification's formulas

    These follow the specification's wording; the theorems compare them
    with what the engine computes. *)

(** "standard complex division (a * conjugate(b)) / |b|^2" *)
Definition quotientFormula (a b : Complex) : Complex :=
  complex ((re a * re b + im a * im b) / (re b * re b + im b * im b))
          ((im a * re b - re a * im b) / (re b * re b + im b * im b)).

(** "superposing the two packets' values and gradients, forming
    velocityTerm_a = divide(totalGradient_a, totalValue) per axis, and
    taking velocity_a = (hbar/mass) * Im(velocityTerm_a)" *)
Definition guidingVelocity (M : MathLib) (s1 s2 : PacketParams) (x y : float)
  : float * float :=
  let totalValue := add (gaussianPacket M x y s1) (gaussianPacket M x y s2) in
  let totalGradientX :=
    add (fst (gaussianPacketGradient M x y s1)) (fst (gaussianPacketGradient M x y s2)) in
  let totalGradientY :=
    add (snd (gaussianPacketGradient M x y s1)) (snd (gaussianPacketGradient M x y s2)) in
  (H_BAR / MASS * im (divide totalGradientX totalValue),
   H_BAR / MASS * im (divide totalGradientY totalValue)).



(** The store holds [config] at [ref], with its three records. *)
Definition holds_config (st : gmap positive object) (ref : positive)
  (config : Config) : Prop :=
  exists ip r1 r2,
    st !! ref = Some (ConfigObj ip r1 r2 (dt config) (steps config)) /\
    st !! ip = Some (PositionObj (initialPosition config)) /\
    st !! r1 = Some (PacketObj (slit1 config)) /\
    st !! r2 = Some (PacketObj (slit2 config)).

(** *** Statements of the specification that the engine does not meet *)

(** "consecutive entries' times differ by exactly dt" *)
Definition times_differ_by_dt : Prop :=
  forall M config i p q,
    valid_config config ->
    runSimulation M config !! i = Some p ->
    runSimulation M config !! S i = Some q ->
    (pt_t q - pt_t p =? dt config) = true.

(** "and are strictly increasing" *)
Definition times_strictly_increasing : Prop :=
  forall M config i p q,
    valid_config config ->
    runSimulation M config !! i = Some p ->
    runSimulation M config !! S i = Some q ->
    (pt_t p <? pt_t q) = true.

(** "no trajectory beyond the initial state is produced for such inputs" *)
Definition invalid_config_not_run : Prop :=
  forall M config,
    invalid_config config -> (length (runSimulation M config) <= 1)%nat.

(** "if b.re = 0 and b.im = 0 exactly, divide(a, b) returns (0, 0);
    otherwise divide(a, b) equals the standard complex quotient" *)
Definition divide_by_cases : Prop :=
  forall a b,
    ((re b =? 0) && (im b =? 0) = true -> divide a b = complex 0 0) /\
    ((re b =? 0) && (im b =? 0) = false -> divide a b = quotientFormula a b).


(** ** Sample inputs *)

(** The configuration of the file's usage example. *)
Definition exampleConfig : Config :=
  {| initialPosition := mkPosition (-0.5) (-5);
     slit1 := mkPacket 0 1.5 1.0 0 5;
     slit2 := mkPacket 0 (-1.5) 1.0 0 5;
     dt := 0.02;
     steps := 500 |}.

(** The same slits, three steps of a tenth. *)
Definition tenthConfig : Config :=
  {| initialPosition := mkPosition (-0.5) (-5);
     slit1 := mkPacket 0 1.5 1.0 0 5;
     slit2 := mkPacket 0 (-1.5) 1.0 0 5;
     dt := 0.1;
     steps := 3 |}.

(** The same slits, three steps of [1e308]. *)
Definition hugeStepConfig : Config :=
  {| initialPosition := mkPosition (-0.5) (-5);
     slit1 := mkPacket 0 1.5 1.0 0 5;
     slit2 := mkPacket 0 (-1.5) 1.0 0 5;
     dt := 1e308;
     steps := 3 |}.

(** A zero width and a negative time step. *)
Definition badConfig : Config :=
  {| initialPosition := mkPosition (-0.5) (-5);
     slit1 := mkPacket 0 1.5 0 0 5;
     slit2 := mkPacket 0 (-1.5) 1.0 0 5;
     dt := (-0.02);
     steps := 2 |}.

Definition negativeStepsConfig : Config :=
  {| initialPosition := mkPosition (-0.5) (-5);
     slit1 := mkPacket 0 1.5 1.0 0 5;
     slit2 := mkPacket 0 (-1.5) 1.0 0 5;
     dt := 0.02;
     steps := (-3) |}.

(** A start so far out that [dx * dx] overflows: both packets vanish. *)
Definition farConfig : Config :=
  {| initialPosition := mkPosition 1e200 0;
     slit1 := mkPacket 0 1.5 1.0 0 5;
     slit2 := mkPacket 0 (-1.5) 1.0 0 5;
     dt := 0.02;
     steps := 2 |}.




(** A store with [tenthConfig] at reference 1. *)
Definition exampleStore : gmap positive object :=
  {[ 1%positive := ConfigObj 2 3 4 0.1 3;
     2%positive := PositionObj (mkPosition (-0.5) (-5));
     3%positive := PacketObj (mkPacket 0 1.5 1.0 0 5);
     4%positive := PacketObj (mkPacket 0 (-1.5) 1.0 0 5) ]}.

(** ** Variations of a configuration *)

(** The same run with the two slits exchanged. *)
Definition swapSlits (config : Config) : Config :=
  {| initialPosition := initialPosition config;
     slit1 := slit2 config;
     slit2 := slit1 config;
     dt := dt config;
     steps := steps config |}.

(** The same run with another number of steps. *)
Definition withSteps (config : Config) (n : Z) : Config :=
  {| initialPosition := initialPosition config;
     slit1 := slit1 config;
     slit2 := slit2 config;
     dt := dt config;
     steps := n |}.

(** A run of [n] steps that starts where the sample [p] is. *)
Definition restartAt (config : Config) (p : TrajectoryPoint) (n : Z) : Config :=
  {| initialPosition := mkPosition (pt_x p) (pt_y p);
     slit1 := slit1 config;
     slit2 := slit2 config;
     dt := dt config;
     steps := n |}.

(** The path of a trajectory: its samples without their times. *)
Definition positions (trajectory : list TrajectoryPoint) : list (float * float) :=
  (fun p => (pt_x p, pt_y p)) <$> trajectory.


(** ** Facts of binary64 arithmetic *)

Section SpecFacts.















Lemma SFisZero_real x : SFisZero x -> SFisReal x.
Proof. by destruct x. Qed.

Lemma SFmul_zero_l x y : SFisZero x -> SFisReal y -> SFisZero (SF64mul x y).
Proof. destruct x, y; done. Qed.


Lemma SFsub_zero x y : SFisZero x -> SFisZero y -> SFisZero (SF64sub x y).
Proof. destruct x as [[]| | |], y as [[]| | |]; done. Qed.

Lemma SFadd_zero x y : SFisZero x -> SFisZero y -> SFisZero (SF64add x y).
Proof. destruct x as [[]| | |], y as [[]| | |]; done. Qed.

Lemma SFdiv_zero x y :
  SFisZero x -> y <> S754_nan -> ~ SFisZero y -> SFisZero (SF64div x y).
Proof. destruct x, y; done. Qed.

Lemma iter_pos_invariant {A} (P : A -> Prop) (f : A -> A) :
  (forall a, P a -> P (f a)) -> forall p a, P a -> P (SpecFloat.iter_pos f p a).
Proof.
  intros Hf. induction p as [p IH|p IH|]; intros a Ha; simpl; auto.
Qed.

Lemma shr_1_nonneg mrs : (0 <= shr_m mrs)%Z -> (0 <= shr_m (shr_1 mrs))%Z.
Proof.
  destruct mrs as [m r s]. simpl. destruct m as [|[p|p|]|[p|p|]]; simpl; lia.
Qed.

Lemma shr_fexp_nonneg m e l :
  (0 <= m)%Z -> (0 <= shr_m (fst (shr_fexp prec emax m e l)))%Z.
Proof.
  intros Hm. unfold shr_fexp, shr.
  assert (0 <= shr_m (shr_record_of_loc m l))%Z as H0.
  { destruct l as [|[]]; simpl; lia. }
  destruct (fexp prec emax (Zdigits2 m + e) - e)%Z; simpl; try done.
  apply (iter_pos_invariant (fun r => (0 <= shr_m r)%Z)); auto using shr_1_nonneg.
Qed.

Lemma round_nearest_even_nonneg m l :
  (0 <= m)%Z -> (0 <= round_nearest_even m l)%Z.
Proof.
  intros Hm. destruct l as [|[]]; simpl; try lia. destruct (Z.even m); lia.
Qed.

Lemma binary_round_aux_signed s m e l :
  (0 <= m)%Z -> SFsigned s (binary_round_aux prec emax s m e l).
Proof.
  intros Hm. unfold binary_round_aux.
  pose proof (shr_fexp_nonneg m e l Hm) as H1.
  destruct (shr_fexp prec emax m e l) as [mrs' e']. simpl in H1.
  pose proof (shr_fexp_nonneg _ e' loc_Exact
                (round_nearest_even_nonneg _ (loc_of_shr_record mrs') H1)) as H2.
  destruct (shr_fexp prec emax _ e' loc_Exact) as [mrs'' e'']. simpl in H2.
  destruct (shr_m mrs'') as [|q|q]; [done| |lia].
  by destruct (Z.leb e'' (emax - prec)).
Qed.

Lemma binary_round_signed s m e : SFsigned s (binary_round prec emax s m e).
Proof.
  unfold binary_round. destruct (shl_align m e _) as [mz ez].
  by apply binary_round_aux_signed.
Qed.

Lemma SFsigned_nonneg x : SFsigned false x -> SFnonneg x.
Proof. by destruct x. Qed.

Lemma SFmul_self_nonneg x : SFisReal x -> SFnonneg (SF64mul x x).
Proof.
  destruct x as [s|s| |s m e]; try done. intros _.
  apply SFsigned_nonneg. simpl. rewrite xorb_nilpotent.
  by apply binary_round_aux_signed.
Qed.

Lemma SFadd_nonneg x y : SFnonneg x -> SFnonneg y -> SFnonneg (SF64add x y).
Proof.
  destruct x as [sx|sx| |sx mx ex], y as [sy|sy| |sy my ey]; simpl;
    try done; try (by intros -> ->); try (by destruct sx, sy).
  intros -> ->. apply SFsigned_nonneg. simpl. apply binary_round_signed.
Qed.

Lemma SFnonneg_not_nan x : SFnonneg x -> x <> S754_nan.
Proof. by destruct x. Qed.

End SpecFacts.

Section FloatFacts.

Lemma Prim2SF_zero : Prim2SF 0 = S754_zero false.
Proof. reflexivity. Qed.

Lemma Prim2SF_infinity : Prim2SF infinity = S754_infinity false.
Proof. reflexivity. Qed.

Lemma eqb_zero_spec v : (v =? 0) = true <-> SFisZero (Prim2SF v).
Proof.
  rewrite FloatAxioms.eqb_spec, Prim2SF_zero. by destruct (Prim2SF v) as [[]|[]| |[] ? ?].
Qed.

Lemma finite_spec v : finite v <-> SFisReal (Prim2SF v).
Proof.
  unfold finite. rewrite FloatAxioms.ltb_spec, FloatAxioms.abs_spec, Prim2SF_infinity.
  by destruct (Prim2SF v) as [[]|[]| |[] ? ?].
Qed.

Lemma positive_real_spec v :
  positive_real v -> exists m e, Prim2SF v = S754_finite false m e.
Proof.
  unfold positive_real. rewrite !FloatAxioms.ltb_spec, Prim2SF_zero, Prim2SF_infinity.
  destruct (Prim2SF v) as [[]|[]| |[] m e]; intros [H1 H2]; try done.
  by exists m, e.
Qed.










Lemma zero_norm z1 z2 :
  (z1 =? 0) = true -> (z2 =? 0) = true -> (z1 * z1 + z2 * z2 =? 0) = true.
Proof.
  intros H1 H2. apply eqb_zero_spec in H1, H2. apply eqb_zero_spec.
  rewrite FloatAxioms.add_spec, !FloatAxioms.mul_spec.
  apply SFadd_zero; apply SFmul_zero_l; auto using SFisZero_real.
Qed.


Lemma zero_times_positive_real d : positive_real d -> 0 * d = 0.
Proof.
  intros (m & e & Hd)%positive_real_spec.
  apply Prim2SF_inj. by rewrite FloatAxioms.mul_spec, Hd.
Qed.

Lemma add_zero_sameNumber v : sameNumber (v + 0) v.
Proof.
  destruct (Prim2SF v) as [[]|s| |s m e] eqn:Hv.
  - right. by rewrite FloatAxioms.eqb_spec, FloatAxioms.add_spec, Hv.
  - left. apply Prim2SF_inj. by rewrite FloatAxioms.add_spec, Hv.
  - left. apply Prim2SF_inj. by rewrite FloatAxioms.add_spec, Hv.
  - left. apply Prim2SF_inj. by rewrite FloatAxioms.add_spec, Hv.
  - left. apply Prim2SF_inj. by rewrite FloatAxioms.add_spec, Hv.
Qed.

Lemma mul_nan_r v : v * nan = nan.
Proof.
  apply Prim2SF_inj. rewrite FloatAxioms.mul_spec.
  by destruct (Prim2SF v).
Qed.


Lemma add_nan_r v : v + nan = nan.
Proof.
  apply Prim2SF_inj. rewrite FloatAxioms.add_spec.
  by destruct (Prim2SF v).
Qed.

End FloatFacts.

(** ** The loop, entry by entry *)

Section LoopFacts.

Variable M : MathLib.
Variables s1 s2 : PacketParams.
Variable dt0 : float.

Lemma simulationLoop_app n t p acc :
  simulationLoop M n s1 s2 dt0 t p acc = acc ++ laterPoints M n s1 s2 dt0 t p.
Proof.
  revert t p acc. induction n as [|n IH]; intros t p acc; simpl.
  - by rewrite app_nil_r.
  - destruct (eulerStep M s1 s2 dt0 t p) as [t' p'].
    by rewrite IH, <- app_assoc.
Qed.

Lemma length_laterPoints n t p :
  length (laterPoints M n s1 s2 dt0 t p) = n.
Proof.
  revert t p. induction n as [|n IH]; intros t p; simpl; [done|].
  destruct (eulerStep M s1 s2 dt0 t p) as [t' p']. simpl. by rewrite IH.
Qed.

Lemma stateAfter_succ k t p :
  stateAfter M (S k) s1 s2 dt0 t p =
  eulerStep M s1 s2 dt0 (fst (stateAfter M k s1 s2 dt0 t p))
                        (snd (stateAfter M k s1 s2 dt0 t p)).
Proof.
  revert t p. induction k as [|k IH]; intros t p.
  - cbn [stateAfter fst snd]. by destruct (eulerStep M s1 s2 dt0 t p).
  - change (stateAfter M (S (S k)) s1 s2 dt0 t p)
      with (let '(t', p') := eulerStep M s1 s2 dt0 t p in
            stateAfter M (S k) s1 s2 dt0 t' p').
    change (stateAfter M (S k) s1 s2 dt0 t p)
      with (let '(t', p') := eulerStep M s1 s2 dt0 t p in
            stateAfter M k s1 s2 dt0 t' p').
    destruct (eulerStep M s1 s2 dt0 t p) as [t' p']. apply IH.
Qed.

Lemma laterPoints_lookup n i t p :
  (i < n)%nat ->
  laterPoints M n s1 s2 dt0 t p !! i =
  Some (pointOf (stateAfter M (S i) s1 s2 dt0 t p)).
Proof.
  revert i t p. induction n as [|n IH]; intros i t p Hi; [lia|].
  simpl. destruct (eulerStep M s1 s2 dt0 t p) as [t' p'] eqn:E.
  destruct i as [|i]; simpl.
  - done.
  - rewrite IH by lia. simpl. done.
Qed.

Lemma stateAfter_clock k p :
  fst (stateAfter M k s1 s2 dt0 0 p) = clock k dt0.
Proof.
  induction k as [|k IH]; [done|].
  rewrite stateAfter_succ. simpl. by rewrite IH.
Qed.

End LoopFacts.

Lemma runSimulation_unfold M config :
  runSimulation M config =
  initialSample config ::
    laterPoints M (Z.to_nat (steps config)) (slit1 config) (slit2 config)
      (dt config) 0 (initialPosition config).
Proof. unfold runSimulation. by rewrite simulationLoop_app. Qed.

Lemma runSimulation_length M config :
  length (runSimulation M config) = S (Z.to_nat (steps config)).
Proof. rewrite runSimulation_unfold. simpl. by rewrite length_laterPoints. Qed.

Lemma runSimulation_lookup M config k :
  (k <= Z.to_nat (steps config))%nat ->
  runSimulation M config !! k =
  Some (pointOf (stateAfter M k (slit1 config) (slit2 config) (dt config)
                   0 (initialPosition config))).
Proof.
  intros Hk. rewrite runSimulation_unfold. destruct k as [|k]; [done|].
  simpl. rewrite laterPoints_lookup by lia. done.
Qed.

Lemma runSimulation_time M config k p :
  runSimulation M config !! k = Some p -> pt_t p = clock k (dt config).
Proof.
  intros Hp.
  assert (k <= Z.to_nat (steps config))%nat as Hk.
  { apply lookup_lt_Some in Hp. rewrite runSimulation_length in Hp. lia. }
  rewrite runSimulation_lookup in Hp by done. injection Hp as <-.
  apply stateAfter_clock.
Qed.

Lemma runSimulation_times M config :
  pt_t <$> runSimulation M config =
  (fun k => clock k (dt config)) <$> seq 0 (S (Z.to_nat (steps config))).
Proof.
  apply list_eq. intros k. rewrite !list_lookup_fmap.
  destruct (decide (k <= Z.to_nat (steps config))%nat) as [Hk|Hk].
  - rewrite runSimulation_lookup by done.
    rewrite lookup_seq_lt by lia. simpl. f_equal. apply stateAfter_clock.
  - rewrite (lookup_ge_None_2 (runSimulation M config))
      by (rewrite runSimulation_length; lia).
    rewrite lookup_seq_ge by lia. done.
Qed.

Lemma guidingVelocity_engine M s1 s2 x y :
  guidingVelocity M s1 s2 x y = (velocityX M s1 s2 x y, velocityY M s1 s2 x y).
Proof. reflexivity. Qed.

(** ** Part 3 claims: the integrator *)

(** C1 (amended).  For every configuration and every step index [i < steps],
    trajectory entry [i+1] is [(t_i + dt, x_i + vX*dt, y_i + vY*dt)], every
    sum and product rounded to binary64, where [(vX, vY)] is the guiding
    velocity at [(x_i, y_i)]: the packets' values and gradients added
    pointwise, [divide(totalGradient_a, totalValue)] per axis and
    [(hbar/mass) * Im] of it, with [hbar = mass = 1].  Consequently the time
    of entry [k] is [dt] added [k] times to [0], each sum rounded. *)
Theorem euler_step_entries M config i :
  (Z.of_nat i < steps config)%Z ->
  exists p q,
    runSimulation M config !! i = Some p /\
    runSimulation M config !! S i = Some q /\
    (let v := guidingVelocity M (slit1 config) (slit2 config) (pt_x p) (pt_y p) in
     q = mkPoint (pt_t p + dt config)
                 (pt_x p + fst v * dt config)
                 (pt_y p + snd v * dt config)) /\
    pt_t p = clock i (dt config) /\
    pt_t q = clock (S i) (dt config).
Proof.
  intros Hi.
  eexists _, _. split; [|split; [|split; [|split]]].
  - apply runSimulation_lookup. lia.
  - apply runSimulation_lookup. lia.
  - cbv zeta. rewrite stateAfter_succ, guidingVelocity_engine. reflexivity.
  - apply stateAfter_clock.
  - apply stateAfter_clock.
Qed.

Lemma valid_tenthConfig : valid_config tenthConfig.
Proof. split; try split; try reflexivity. simpl. lia. Qed.

Lemma valid_hugeStepConfig : valid_config hugeStepConfig.
Proof. split; try split; try reflexivity. simpl. lia. Qed.

(** The clock of three steps of a tenth, and of three steps of [1e308], on
    every host. *)
Lemma tenthConfig_times M :
  pt_t <$> runSimulation M tenthConfig = [0; 0.1; 0.2; 0.30000000000000004].
Proof. rewrite runSimulation_times. reflexivity. Qed.

Lemma hugeStepConfig_times M :
  pt_t <$> runSimulation M hugeStepConfig = [0; 1e308; infinity; infinity].
Proof. rewrite runSimulation_times. reflexivity. Qed.

Lemma times_differ_by_dt_fails : ~ times_differ_by_dt.
Proof.
  intros H.
  assert (2 <= Z.to_nat (steps tenthConfig))%nat as H2 by (simpl; lia).
  assert (3 <= Z.to_nat (steps tenthConfig))%nat as H3 by (simpl; lia).
  pose proof (runSimulation_lookup sampleMath tenthConfig 2 H2) as Hp.
  pose proof (runSimulation_lookup sampleMath tenthConfig 3 H3) as Hq.
  specialize (H _ _ _ _ _ valid_tenthConfig Hp Hq).
  rewrite (runSimulation_time _ _ _ _ Hp), (runSimulation_time _ _ _ _ Hq) in H.
  vm_compute in H. discriminate H.
Qed.

Lemma times_strictly_increasing_fails : ~ times_strictly_increasing.
Proof.
  intros H.
  assert (2 <= Z.to_nat (steps hugeStepConfig))%nat as H2 by (simpl; lia).
  assert (3 <= Z.to_nat (steps hugeStepConfig))%nat as H3 by (simpl; lia).
  pose proof (runSimulation_lookup sampleMath hugeStepConfig 2 H2) as Hp.
  pose proof (runSimulation_lookup sampleMath hugeStepConfig 3 H3) as Hq.
  specialize (H _ _ _ _ _ valid_hugeStepConfig Hp Hq).
  rewrite (runSimulation_time _ _ _ _ Hp), (runSimulation_time _ _ _ _ Hq) in H.
  vm_compute in H. discriminate H.
Qed.

(** C1, as stated, fails.  With [dt = 0.1] the times are [0], [0.1], [0.2],
    [0.30000000000000004] on every host, and [0.30000000000000004 - 0.2] is
    [0.10000000000000003], not [dt]; with [dt = 1e308] the third and fourth
    times are both [Infinity]. *)
Lemma times_counterexample :
  (forall M, pt_t <$> runSimulation M tenthConfig = [0; 0.1; 0.2; 0.30000000000000004]) /\
  (0.30000000000000004 - 0.2 =? 0.1) = false /\
  (forall M, pt_t <$> runSimulation M hugeStepConfig = [0; 1e308; infinity; infinity]) /\
  (infinity <? infinity) = false /\
  ~ times_differ_by_dt /\
  ~ times_strictly_increasing.
Proof.
  split; [exact tenthConfig_times|]. split; [reflexivity|].
  split; [exact hugeStepConfig_times|]. split; [reflexivity|].
  split; [exact times_differ_by_dt_fails | exact times_strictly_increasing_fails].
Qed.

Lemma euler_step_entries_witness :
  exists p q,
    runSimulation sampleMath tenthConfig !! 2%nat = Some p /\
    runSimulation sampleMath tenthConfig !! 3%nat = Some q /\
    (let v := guidingVelocity sampleMath (slit1 tenthConfig) (slit2 tenthConfig)
                (pt_x p) (pt_y p) in
     q = mkPoint (pt_t p + dt tenthConfig)
                 (pt_x p + fst v * dt tenthConfig)
                 (pt_y p + snd v * dt tenthConfig)) /\
    pt_t p = clock 2 (dt tenthConfig) /\
    pt_t q = clock 3 (dt tenthConfig).
Proof. apply (euler_step_entries sampleMath tenthConfig 2). simpl. lia. Defined.

(** C2.  For every configuration with [steps >= 0], so for every valid
    one (the widths and [dt] play no part), the trajectory has exactly
    [steps + 1] entries; for [steps = 0] it is the initial sample alone,
    whatever the slits are. *)
Theorem trajectory_length M config :
  (0 <= steps config)%Z ->
  Z.of_nat (length (runSimulation M config)) = (steps config + 1)%Z /\
  (steps config = 0%Z ->
   runSimulation M config =
   [mkPoint 0 (pos_x (initialPosition config)) (pos_y (initialPosition config))]).
Proof.
  intros Hsteps. split.
  - rewrite runSimulation_length. lia.
  - intros H0. unfold runSimulation. rewrite H0. reflexivity.
Qed.

Lemma trajectory_length_witness :
  Z.of_nat (length (runSimulation sampleMath exampleConfig)) = 501%Z /\
  (steps exampleConfig = 0%Z ->
   runSimulation sampleMath exampleConfig = [mkPoint 0 (-0.5) (-5)]).
Proof.
  apply (trajectory_length sampleMath exampleConfig). simpl. lia.
Defined.

(** C3.  The first entry of the trajectory is
    [{t: 0, x: initialPosition.x, y: initialPosition.y}], for every
    configuration. *)
Theorem first_entry_is_initial_sample M config :
  runSimulation M config !! 0%nat =
  Some (mkPoint 0 (pos_x (initialPosition config)) (pos_y (initialPosition config))).
Proof. rewrite runSimulation_unfold. reflexivity. Qed.

(** C4 (amended).  [runSimulation] checks nothing and reports no
    configuration error: for every configuration, also with a non-positive
    width or [dt], the loop runs [max(steps, 0)] times and the trajectory
    has [max(steps, 0) + 1] entries, one pushed by each step. *)
Theorem no_configuration_check M config :
  length (runSimulation M config) = S (Z.to_nat (steps config)) /\
  forall i, (i < Z.to_nat (steps config))%nat ->
            is_Some (runSimulation M config !! S i).
Proof.
  split; [apply runSimulation_length|].
  intros i Hi. apply lookup_lt_is_Some. rewrite runSimulation_length. lia.
Qed.

Lemma no_configuration_check_witness :
  is_Some (runSimulation sampleMath badConfig !! 2%nat).
Proof.
  apply (no_configuration_check sampleMath badConfig). simpl. lia.
Defined.

(** C4, as stated, fails: a configuration with a zero width and a negative
    [dt] is run for its two steps, on every host. *)
Lemma invalid_config_counterexample :
  invalid_config badConfig /\
  (forall M, length (runSimulation M badConfig) = 3%nat) /\
  ~ invalid_config_not_run.
Proof.
  split; [left; reflexivity|]. split.
  - intros M. apply runSimulation_length.
  - intros H. specialize (H sampleMath badConfig (or_introl eq_refl)).
    rewrite runSimulation_length in H. simpl in H. lia.
Qed.

(** C10.  With a negative [steps] the loop body is never entered: the
    trajectory is the initial sample alone, and no error is raised. *)
Theorem negative_steps_single_entry M config :
  (steps config < 0)%Z ->
  runSimulation M config =
  [mkPoint 0 (pos_x (initialPosition config)) (pos_y (initialPosition config))].
Proof.
  intros Hneg. unfold runSimulation.
  destruct (steps config) as [|n|n]; try lia. reflexivity.
Qed.

Lemma negative_steps_single_entry_witness :
  runSimulation sampleMath negativeStepsConfig = [mkPoint 0 (-0.5) (-5)].
Proof.
  apply (negative_steps_single_entry sampleMath negativeStepsConfig).
  simpl. lia.
Defined.

(** ** Part 1 claims: complex division *)

Example multiply_example : multiply (complex 2 3) (complex 1 (-1)) = complex 5 1.
Proof. reflexivity. Qed.

Example add_example : add (complex 1 2) (complex 3 (-4)) = complex 4 (-2).
Proof. reflexivity. Qed.

Example divide_example : divide (complex 1 2) (complex 3 4) = complex 0.44 0.08.
Proof. reflexivity. Qed.

(** C5 (amended).  [divide(a, b)] returns [(0, 0)] whenever the computed
    denominator [b.re*b.re + b.im*b.im] compares equal to [0]: this is so
    when [b.re] and [b.im] are both zero (of either sign), and also for a
    non-zero [b] whose squares underflow.  In every other case it returns
    [((a.re*b.re + a.im*b.im)/den, (a.im*b.re - a.re*b.im)/den)] in
    binary64 arithmetic.  In particular [divide((1,0),(0,0)) = (0,0)]. *)
Theorem divide_zero_denominator a b :
  divide a b =
    (if re b * re b + im b * im b =? 0 then complex 0 0
     else quotientFormula a b) /\
  ((re b =? 0) = true -> (im b =? 0) = true -> divide a b = complex 0 0) /\
  divide (complex 1 0) (complex 0 0) = complex 0 0.
Proof.
  split; [reflexivity|]. split; [|reflexivity].
  intros Hre Him. unfold divide. by rewrite zero_norm.
Qed.

Lemma divide_zero_denominator_witness :
  divide (complex 3 4) (complex neg_zero 0) = complex 0 0.
Proof.
  apply (divide_zero_denominator (complex 3 4) (complex neg_zero 0));
    reflexivity.
Defined.

(** C5, as stated, fails: [b = (1e-200, 0)] is not zero, yet
    [b.re*b.re] underflows to [0] and [divide((1,0), b)] is [(0, 0)], while
    the quotient formula evaluates to [(Infinity, NaN)] (and the exact
    quotient is [(1e200, 0)]). *)
Lemma divide_underflow_counterexample :
  (re (complex 1e-200 0) =? 0) = false /\
  (1e-200 * 1e-200 + 0 * 0 =? 0) = true /\
  divide (complex 1 0) (complex 1e-200 0) = complex 0 0 /\
  quotientFormula (complex 1 0) (complex 1e-200 0) = complex infinity nan /\
  ~ divide_by_cases.
Proof.
  repeat (split; [reflexivity|]).
  intros H. destruct (H (complex 1 0) (complex 1e-200 0)) as [_ H2].
  specialize (H2 eq_refl).
  apply (f_equal (fun c => re c =? 0)) in H2. vm_compute in H2.
  discriminate H2.
Qed.

(** ** Part 2 claims: the wave packet *)

(** C6.  [gaussianPacket] is [multiply((magnitude, 0), (cos theta, sin theta))]
    with [magnitude = exp(-((x-cx)^2 + (y-cy)^2) / (4 sigma^2))] and
    [theta = (px (x-cx) + py (y-cy)) / hbar]; [gaussianPacketGradient] is
    the pair of [multiply(Psi, (-(x-cx)/(2 sigma^2), px/hbar))] and
    [multiply(Psi, (-(y-cy)/(2 sigma^2), py/hbar))], [Psi] being the packet
    value.  (The squares are the products the engine forms.) *)
Theorem gaussian_packet_formulas M x y params :
  let cx := centerX params in
  let cy := centerY params in
  let sigma := width params in
  let px := momentumX params in
  let py := momentumY params in
  let theta := (px * (x - cx) + py * (y - cy)) / H_BAR in
  let Psi := gaussianPacket M x y params in
  Psi = multiply
          (complex (Math_exp M (- ((x - cx) * (x - cx) + (y - cy) * (y - cy))
                                / (4 * (sigma * sigma)))) 0)
          (complex (Math_cos M theta) (Math_sin M theta)) /\
  gaussianPacketGradient M x y params =
    (multiply Psi (complex (- (x - cx) / (2 * (sigma * sigma))) (px / H_BAR)),
     multiply Psi (complex (- (y - cy) / (2 * (sigma * sigma))) (py / H_BAR))).
Proof. split; reflexivity. Qed.

(** ** Part 3 claims: nodes of the wave function *)

Lemma velocity_at_node M s1 s2 x y :
  (re (totalPsi M s1 s2 x y) =? 0) = true ->
  (im (totalPsi M s1 s2 x y) =? 0) = true ->
  velocityX M s1 s2 x y = 0 /\ velocityY M s1 s2 x y = 0.
Proof.
  intros Hr Hi. unfold velocityX, velocityY, divide. cbv zeta.
  rewrite (zero_norm _ _ Hr Hi). split; reflexivity.
Qed.

(** C7.  For every valid configuration the loop runs its [steps] iterations
    whatever the field is: the trajectory has [steps + 1] entries, and at a
    step [i] where the superposed value [totalPsi] is [(0, 0)] both
    velocities are [0] (not [NaN], not an infinity), so that entry [i+1] has
    the time [t_i + dt] and the position of entry [i]. *)
Theorem node_step_keeps_position M config :
  valid_config config ->
  Z.of_nat (length (runSimulation M config)) = (steps config + 1)%Z /\
  forall i p,
    (Z.of_nat i < steps config)%Z ->
    runSimulation M config !! i = Some p ->
    (re (totalPsi M (slit1 config) (slit2 config) (pt_x p) (pt_y p)) =? 0) = true ->
    (im (totalPsi M (slit1 config) (slit2 config) (pt_x p) (pt_y p)) =? 0) = true ->
    velocityX M (slit1 config) (slit2 config) (pt_x p) (pt_y p) = 0 /\
    velocityY M (slit1 config) (slit2 config) (pt_x p) (pt_y p) = 0 /\
    exists q,
      runSimulation M config !! S i = Some q /\
      pt_t q = pt_t p + dt config /\
      sameNumber (pt_x q) (pt_x p) /\
      sameNumber (pt_y q) (pt_y p).
Proof.
  intros [_ _ Hdt Hsteps]. split; [rewrite runSimulation_length; lia|].
  intros i p Hi Hp Hre Him.
  destruct (velocity_at_node _ _ _ _ _ Hre Him) as [Hvx Hvy].
  split; [done|]. split; [done|].
  rewrite runSimulation_lookup in Hp by lia. injection Hp as <-.
  eexists. split; [apply runSimulation_lookup; lia|].
  rewrite stateAfter_succ. unfold eulerStep, pointOf in *. simpl in *.
  rewrite Hvx, Hvy, (zero_times_positive_real _ Hdt).
  split; [done|]. split; apply add_zero_sameNumber.
Qed.

Lemma node_step_keeps_position_witness :
  velocityX sampleMath (slit1 farConfig) (slit2 farConfig) 1e200 0 = 0 /\
  velocityY sampleMath (slit1 farConfig) (slit2 farConfig) 1e200 0 = 0 /\
  exists q,
    runSimulation sampleMath farConfig !! 1%nat = Some q /\
    pt_t q = 0 + dt farConfig /\
    sameNumber (pt_x q) 1e200 /\
    sameNumber (pt_y q) 0.
Proof.
  assert (valid_config farConfig) as Hv.
  { split; try split; try reflexivity. simpl. lia. }
  destruct (node_step_keeps_position sampleMath farConfig Hv) as [_ H].
  apply (H 0%nat (mkPoint 0 1e200 0)); reflexivity.
Defined.

(** ** Part 3 claims: the symmetric two-slit start *)









Lemma zero_times_real z d : (z =? 0) = true -> finite d -> (z * d =? 0) = true.
Proof.
  intros Hz Hd. apply eqb_zero_spec in Hz. apply finite_spec in Hd.
  apply eqb_zero_spec. rewrite FloatAxioms.mul_spec. by apply SFmul_zero_l.
Qed.





(** ** The configuration is left as it was *)

Section StoreFacts.

Variable M : MathLib.

Lemma simulationLoopS_run n r1 r2 dt0 t cur acc st p s1 s2 :
  st !! cur = Some (PositionObj p) ->
  st !! r1 = Some (PacketObj s1) ->
  st !! r2 = Some (PacketObj s2) ->
  simulationLoopS M n r1 r2 dt0 t cur acc st =
  Some (simulationLoop M n s1 s2 dt0 t p acc,
        <[cur := PositionObj (snd (stateAfter M n s1 s2 dt0 t p))]> st).
Proof.
  revert t acc st p. induction n as [|n IH]; intros t acc st p Hcur H1 H2.
  - simpl. unfold ret. by rewrite insert_id.
  - assert (cur <> r1) as Hn1 by congruence.
    assert (cur <> r2) as Hn2 by congruence.
    cbn [simulationLoopS simulationLoop stateAfter].
    unfold bind at 1. unfold readPosition at 1. rewrite Hcur.
    unfold bind at 1. unfold readPacket at 1. rewrite H1.
    unfold bind at 1. unfold readPacket at 1. rewrite H2.
    unfold bind at 1. unfold addToX. rewrite Hcur.
    unfold bind at 1. unfold addToY. rewrite lookup_insert_eq, insert_insert_eq.
    unfold bind at 1. unfold readPosition at 1. rewrite lookup_insert_eq.
    cbn [pos_x pos_y]. unfold eulerStep.
    erewrite IH.
    + by rewrite insert_insert_eq.
    + by rewrite lookup_insert_eq.
    + by rewrite lookup_insert_ne.
    + by rewrite lookup_insert_ne.
Qed.

Lemma runSimulationS_run st ref config :
  holds_config st ref config ->
  runSimulationS M ref st =
  Some (runSimulation M config,
        <[fresh (dom st) :=
            PositionObj (snd (stateAfter M (Z.to_nat (steps config))
                                (slit1 config) (slit2 config) (dt config)
                                0 (initialPosition config)))]> st).
Proof.
  intros (ip & r1 & r2 & Hc & Hip & H1 & H2).
  assert (st !! fresh (dom st) = None) as Hfresh.
  { apply not_elem_of_dom, is_fresh. }
  unfold runSimulationS.
  unfold bind at 1. unfold readConfig. rewrite Hc.
  unfold bind at 1. unfold readPosition at 1. rewrite Hip.
  unfold bind at 1. unfold alloc.
  unfold bind at 1. unfold readPosition at 1. rewrite lookup_insert_eq.
  erewrite simulationLoopS_run.
  - by rewrite insert_insert_eq.
  - by rewrite lookup_insert_eq.
  - rewrite lookup_insert_ne; [done|congruence].
  - rewrite lookup_insert_ne; [done|congruence].
Qed.

End StoreFacts.

(** C9.  A run leaves its [config] argument as it was: on a store that
    holds the configuration, [runSimulation] returns its trajectory, and
    every object of the store before the call (the configuration record with
    its [dt] and [steps], [initialPosition], [slit1], [slit2]) is the same
    after it; the only change is one new object, the integrator's copy of
    the position. *)
Theorem run_leaves_config_unchanged M st ref config :
  holds_config st ref config ->
  exists st' cur final,
    runSimulationS M ref st = Some (runSimulation M config, st') /\
    st !! cur = None /\
    st' = <[cur := PositionObj final]> st /\
    (forall l o, st !! l = Some o -> st' !! l = Some o) /\
    holds_config st' ref config.
Proof.
  intros Hst.
  assert (st !! fresh (dom st) = None) as Hfresh.
  { apply not_elem_of_dom, is_fresh. }
  eexists _, (fresh (dom st)), _.
  split; [by apply runSimulationS_run|].
  split; [done|]. split; [done|].
  assert (forall l o, st !! l = Some o ->
            <[fresh (dom st) :=
                PositionObj (snd (stateAfter M (Z.to_nat (steps config))
                                    (slit1 config) (slit2 config) (dt config)
                                    0 (initialPosition config)))]> st !! l = Some o)
    as Hframe.
  { intros l o Hl. rewrite lookup_insert_ne; [done|congruence]. }
  split; [exact Hframe|].
  destruct Hst as (ip & r1 & r2 & Hc & Hip & H1 & H2).
  exists ip, r1, r2. auto.
Qed.

Lemma run_leaves_config_unchanged_witness :
  exists st' cur final,
    runSimulationS sampleMath 1 exampleStore =
      Some (runSimulation sampleMath tenthConfig, st') /\
    exampleStore !! cur = None /\
    st' = <[cur := PositionObj final]> exampleStore /\
    (forall l o, exampleStore !! l = Some o -> st' !! l = Some o) /\
    holds_config st' 1 tenthConfig.
Proof.
  apply (run_leaves_config_unchanged sampleMath exampleStore 1 tenthConfig).
  exists 2%positive, 3%positive, 4%positive. repeat split; reflexivity.
Defined.

(** ** Further facts of binary64 arithmetic *)

Section MoreSpecFacts.

Lemma SFadd_comm x y : SF64add x y = SF64add y x.
Proof.
  destruct x as [sx|sx| |sx mx ex], y as [sy|sy| |sy my ey]; simpl;
    try reflexivity; try (by destruct sx, sy).
  by rewrite (Z.min_comm ey ex), Z.add_comm.
Qed.

Lemma SFmul_comm x y : SF64mul x y = SF64mul y x.
Proof.
  destruct x as [sx|sx| |sx mx ex], y as [sy|sy| |sy my ey]; simpl;
    rewrite ?(xorb_comm sy sx); try reflexivity.
  by rewrite (Pos.mul_comm my mx), (Z.add_comm ey ex).
Qed.

Lemma SFsub_diag x : SFisReal x -> SF64sub x x = S754_zero false.
Proof.
  destruct x as [[]|s| |s m e]; try done. intros _.
  unfold SF64sub, SFsub. by rewrite Z.sub_diag.
Qed.

(** [1] is the mantissa [2^52] with the exponent [-52]. *)
Lemma SFmul_one_l x :
  valid_binary x = true ->
  SF64mul (S754_finite false 4503599627370496 (-52)) x = x.
Proof.
  destruct x as [s|s| |s m e]; try reflexivity.
  unfold valid_binary, bounded, canonical_mantissa, fexp. intros Hv.
  apply andb_true_iff in Hv as [Hc Hb]. apply Z.eqb_eq in Hc.
  unfold SF64mul, SFmul. cbn [xorb].
  unfold binary_round_aux, shr_fexp.
  assert (Zdigits2 (Z.pos (4503599627370496 * m)) = Z.pos (digits2_pos m) + 52)%Z
    as Hd.
  { simpl. rewrite !Pos2Z.inj_succ, Pos.mul_1_l. lia. }
  rewrite Hd.
  replace (fexp prec emax (Z.pos (digits2_pos m) + 52 + (-52 + e)) - (-52 + e))%Z
    with 52%Z.
  2:{ unfold fexp.
      replace (Z.pos (digits2_pos m) + 52 + (-52 + e) - prec)%Z
        with (Z.pos (digits2_pos m) + e - prec)%Z by lia.
      rewrite Hc. lia. }
  unfold shr at 1.
  replace (SpecFloat.iter_pos shr_1 52
             (shr_record_of_loc (Z.pos (4503599627370496 * m)) loc_Exact))
    with {| shr_m := Z.pos m; shr_r := false; shr_s := false |} by reflexivity.
  cbn [shr_m loc_of_shr_record round_nearest_even shr_record_of_loc Zdigits2].
  replace (-52 + e + 52)%Z with e by lia.
  unfold fexp. rewrite Hc, Z.sub_diag. cbn [shr shr_m]. by rewrite Hb.
Qed.

Lemma div_eucl_exact a b q :
  (0 < b)%Z -> (a = q * b)%Z -> Z.div_eucl a b = (q, 0%Z).
Proof.
  intros Hb ->.
  pose proof (Z.div_mul q b ltac:(lia)) as Hq.
  pose proof (Z.mod_mul q b ltac:(lia)) as Hr.
  unfold Z.div, Z.modulo in Hq, Hr.
  destruct (Z.div_eucl (q * b) b) as [q' r']. simpl in *. congruence.
Qed.

Lemma new_location_exact nb : new_location nb 0 = loc_Exact.
Proof.
  unfold new_location, new_location_even, new_location_odd.
  by destruct (Z.even nb).
Qed.

Lemma SFdiv_diag x :
  (exists s m e, x = S754_finite s m e) ->
  SF64div x x = S754_finite false 4503599627370496 (-52).
Proof.
  intros (s & m & e & ->).
  unfold SF64div, SFdiv, SFdiv_core_binary. cbn zeta.
  replace (Zdigits2 (Z.pos m) + e - (Zdigits2 (Z.pos m) + e))%Z with 0%Z by lia.
  rewrite Z.sub_diag.
  change (Z.min (fexp prec emax 0) 0) with (-53)%Z.
  change (0 - -53)%Z with 53%Z. cbn match.
  rewrite (div_eucl_exact (Z.shiftl (Z.pos m) 53) (Z.pos m) 9007199254740992).
  - rewrite new_location_exact, xorb_nilpotent. reflexivity.
  - lia.
  - rewrite Z.shiftl_mul_pow2 by lia. change (2 ^ 53)%Z with 9007199254740992%Z. lia.
Qed.

Lemma SFdiv_one_r x :
  valid_binary x = true ->
  SF64div x (S754_finite false 4503599627370496 (-52)) = x.
Proof.
  destruct x as [s|s| |s m e]; try (destruct s; reflexivity); try reflexivity.
  unfold valid_binary, bounded, canonical_mantissa. intros Hv.
  apply andb_true_iff in Hv as [Hc Hb]. apply Z.eqb_eq in Hc.
  unfold SF64div, SFdiv, SFdiv_core_binary. cbn zeta.
  rewrite xorb_false_r.
  change (Zdigits2 4503599627370496) with 53%Z.
  cbn [Zdigits2].
  set (d := Z.pos (digits2_pos m)) in *.
  replace (d + e - (53 + -52))%Z with (d + e - 1)%Z by lia.
  replace (e - -52)%Z with (e + 52)%Z by lia.
  pose proof Hc as Hc'. unfold fexp, SpecFloat.emin, prec, emax in Hc'.
  assert (-1074 <= e)%Z as Hmin by lia.
  destruct (Z.eq_dec e (-1074)%Z) as [He|He].
  - assert (fexp prec emax (d + e - 1) = e) as HF.
    { unfold fexp, SpecFloat.emin, prec, emax. lia. }
    rewrite HF, Z.min_l by lia.
    replace (e + 52 - e)%Z with 52%Z by lia. cbn match.
    rewrite (div_eucl_exact (Z.shiftl (Z.pos m) 52) 4503599627370496 (Z.pos m)).
    + rewrite new_location_exact.
      unfold binary_round_aux, shr_fexp. cbn [Zdigits2]. fold d.
      rewrite Hc, Z.sub_diag.
      cbn [shr shr_record_of_loc shr_m loc_of_shr_record round_nearest_even Zdigits2].
      fold d. rewrite Hc, Z.sub_diag. cbn [shr shr_m]. by rewrite Hb.
    + lia.
    + rewrite Z.shiftl_mul_pow2 by lia. reflexivity.
  - assert (d = 53%Z) as Hd53.
    { lia. }
    assert (fexp prec emax (d + e - 1) = (e - 1)%Z) as HF.
    { unfold fexp, SpecFloat.emin, prec, emax. lia. }
    rewrite HF, Z.min_l by lia.
    replace (e + 52 - (e - 1))%Z with 53%Z by lia. cbn match.
    rewrite (div_eucl_exact (Z.shiftl (Z.pos m) 53) 4503599627370496 (Z.pos m~0)).
    + rewrite new_location_exact.
      unfold binary_round_aux, shr_fexp. cbn [Zdigits2 digits2_pos].
      rewrite Pos2Z.inj_succ. fold d.
      replace (fexp prec emax (Z.succ d + (e - 1)) - (e - 1))%Z with 1%Z.
      2:{ replace (Z.succ d + (e - 1))%Z with (d + e)%Z by lia. rewrite Hc. lia. }
      cbn [shr shr_record_of_loc SpecFloat.iter_pos shr_1 orb shr_m
             loc_of_shr_record round_nearest_even Zdigits2].
      fold d. replace (e - 1 + 1)%Z with e by lia.
      rewrite Hc, Z.sub_diag. cbn [shr shr_m]. by rewrite Hb.
    + lia.
    + rewrite Z.shiftl_mul_pow2 by lia.
      change (2 ^ 53)%Z with (2 * 4503599627370496)%Z. lia.
Qed.

(** A finite sum of two squares has real summands. *)
Lemma SFnorm_real x y :
  SFisReal (SF64add (SF64mul x x) (SF64mul y y)) -> SFisReal x /\ SFisReal y.
Proof.
  destruct x as [sx|sx| |sx mx ex], y as [sy|sy| |sy my ey]; try done;
    simpl; rewrite ?xorb_nilpotent; try done.
  all: by destruct (binary_round_aux _ _ _ _ _ _) as [|[]| |].
Qed.

End MoreSpecFacts.

Section MoreFloatFacts.

Lemma Prim2SF_one : Prim2SF 1 = S754_finite false 4503599627370496 (-52).
Proof. reflexivity. Qed.

Lemma float_add_comm a b : a + b = b + a.
Proof. apply Prim2SF_inj. rewrite !FloatAxioms.add_spec. apply SFadd_comm. Qed.

Lemma float_mul_comm a b : a * b = b * a.
Proof. apply Prim2SF_inj. rewrite !FloatAxioms.mul_spec. apply SFmul_comm. Qed.

Lemma mul_one_l v : 1 * v = v.
Proof.
  apply Prim2SF_inj. rewrite FloatAxioms.mul_spec, Prim2SF_one.
  apply SFmul_one_l, Prim2SF_valid.
Qed.

Lemma div_one_r v : v / 1 = v.
Proof.
  apply Prim2SF_inj. rewrite FloatAxioms.div_spec, Prim2SF_one.
  apply SFdiv_one_r, Prim2SF_valid.
Qed.

Lemma div_diag v : finite v -> (v =? 0) = false -> v / v = 1.
Proof.
  intros Hf%finite_spec Hz. apply Prim2SF_inj.
  rewrite FloatAxioms.div_spec, Prim2SF_one. apply SFdiv_diag.
  destruct (Prim2SF v) as [s|s| |s m e] eqn:E; try done.
  - assert ((v =? 0) = true) by (apply eqb_zero_spec; by rewrite E). congruence.
  - by exists s, m, e.
Qed.

Lemma sub_diag v : finite v -> v - v = 0.
Proof.
  intros Hf%finite_spec. apply Prim2SF_inj.
  rewrite FloatAxioms.sub_spec. by apply SFsub_diag.
Qed.

Lemma add_nan_l v : nan + v = nan.
Proof. by rewrite float_add_comm, add_nan_r. Qed.

Lemma mul_nan_l v : nan * v = nan.
Proof. by rewrite float_mul_comm, mul_nan_r. Qed.

Lemma div_nan_r v : v / nan = nan.
Proof.
  apply Prim2SF_inj. rewrite FloatAxioms.div_spec. by destruct (Prim2SF v).
Qed.

Lemma leb_zero_spec v : (0 <=? v) = true <-> SFnonneg (Prim2SF v).
Proof.
  rewrite FloatAxioms.leb_spec, Prim2SF_zero.
  by destruct (Prim2SF v) as [[]|[]| |[] ? ?].
Qed.

Lemma zero_cases v : (v =? 0) = true -> v = 0 \/ v = neg_zero.
Proof.
  intros Hv. apply eqb_zero_spec in Hv.
  destruct (Prim2SF v) as [[]| | |] eqn:E; try done.
  - right. by apply Prim2SF_inj.
  - left. by apply Prim2SF_inj.
Qed.

Lemma add_zero_r v : v <> neg_zero -> v + 0 = v.
Proof.
  intros Hv. apply Prim2SF_inj. rewrite FloatAxioms.add_spec.
  destruct (Prim2SF v) as [[]|s| |s m e] eqn:E; try done.
  destruct Hv. by apply Prim2SF_inj.
Qed.

Lemma neg_zero_div_positive d : (0 <? d) = true -> neg_zero / d = neg_zero.
Proof.
  rewrite FloatAxioms.ltb_spec, Prim2SF_zero. intros Hd.
  apply Prim2SF_inj. rewrite FloatAxioms.div_spec.
  by destruct (Prim2SF d) as [[]|[]| |[] ? ?].
Qed.

Lemma zero_div_norm z u v :
  (z =? 0) = true -> finite u -> finite v ->
  (u * u + v * v =? 0) = false ->
  (z / (u * u + v * v) =? 0) = true.
Proof.
  intros Hz Hu Hv Hden.
  apply eqb_zero_spec in Hz. apply finite_spec in Hu, Hv.
  apply eqb_zero_spec. rewrite FloatAxioms.div_spec. apply SFdiv_zero; [done| |].
  - rewrite FloatAxioms.add_spec, !FloatAxioms.mul_spec.
    apply SFnonneg_not_nan, SFadd_nonneg; by apply SFmul_self_nonneg.
  - intros H. apply eqb_zero_spec in H. congruence.
Qed.

Lemma zero_combination z1 z2 u v :
  (z1 =? 0) = true -> (z2 =? 0) = true -> finite u -> finite v ->
  (z1 * u + z2 * v =? 0) = true /\ (z2 * u - z1 * v =? 0) = true.
Proof.
  intros H1 H2 Hu Hv.
  apply eqb_zero_spec in H1, H2. apply finite_spec in Hu, Hv.
  split; apply eqb_zero_spec.
  - rewrite FloatAxioms.add_spec, !FloatAxioms.mul_spec.
    apply SFadd_zero; by apply SFmul_zero_l.
  - rewrite FloatAxioms.sub_spec, !FloatAxioms.mul_spec.
    apply SFsub_zero; by apply SFmul_zero_l.
Qed.

Lemma norm_summands_finite u v : finite (u * u + v * v) -> finite u /\ finite v.
Proof.
  intros H%finite_spec.
  rewrite FloatAxioms.add_spec, !FloatAxioms.mul_spec in H.
  apply SFnorm_real in H as [Hu Hv]. split; by apply finite_spec.
Qed.

Lemma zero_div_finite_norm u v :
  finite (u * u + v * v) -> (u * u + v * v =? 0) = false ->
  0 / (u * u + v * v) = 0.
Proof.
  intros Hf Hz. destruct (norm_summands_finite u v Hf) as [Hu%finite_spec Hv%finite_spec].
  apply finite_spec in Hf. apply Prim2SF_inj.
  rewrite FloatAxioms.div_spec.
  assert (SFnonneg (Prim2SF (u * u + v * v))) as Hn.
  { rewrite FloatAxioms.add_spec, !FloatAxioms.mul_spec.
    apply SFadd_nonneg; by apply SFmul_self_nonneg. }
  destruct (Prim2SF (u * u + v * v)) as [s|s| |s m e] eqn:E; try done.
  - assert ((u * u + v * v =? 0) = true) by (apply eqb_zero_spec; by rewrite E).
    congruence.
  - simpl in Hn. by subst s.
Qed.

End MoreFloatFacts.

(** ** Complex arithmetic: algebra *)

Lemma add_comm_complex a b : add a b = add b a.
Proof.
  unfold add. by rewrite (float_add_comm (re a)), (float_add_comm (im a)).
Qed.

(** X1.  [add] and [multiply] are commutative, bit for bit. *)
Theorem complex_arithmetic_commutes a b :
  add a b = add b a /\ multiply a b = multiply b a.
Proof.
  split; [apply add_comm_complex|]. unfold multiply.
  rewrite (float_mul_comm (re a) (re b)), (float_mul_comm (im a) (im b)).
  rewrite (float_add_comm (re a * im b)).
  by rewrite (float_mul_comm (im a) (re b)), (float_mul_comm (re a) (im b)).
Qed.

(** X2.  [divide(a, a)] is [(1, 0)] whenever the computed [|a|^2] is a
    finite number other than zero and the product [a.im*a.re] does not
    overflow. *)
Theorem divide_by_itself a :
  finite (re a * re a + im a * im a) ->
  (re a * re a + im a * im a =? 0) = false ->
  finite (im a * re a) ->
  divide a a = complex 1 0.
Proof.
  intros Hf Hz Hc. unfold divide. cbv zeta. rewrite Hz.
  rewrite (div_diag _ Hf Hz).
  rewrite (float_mul_comm (re a) (im a)), (sub_diag _ Hc).
  by rewrite (zero_div_finite_norm _ _ Hf Hz).
Qed.

Lemma divide_by_itself_witness : divide (complex 3 (-4)) (complex 3 (-4)) = complex 1 0.
Proof. apply divide_by_itself; reflexivity. Defined.

(** X3.  A zero numerator gives a zero quotient for every finite
    denominator, the zero denominator included: both components of
    [divide(a, b)] are [=== 0], never [NaN]. *)
Theorem divide_zero_numerator a b :
  (re a =? 0) = true ->
  (im a =? 0) = true ->
  finite_complex b ->
  (re (divide a b) =? 0) = true /\ (im (divide a b) =? 0) = true.
Proof.
  intros Hre Him [Hr Hi]. unfold divide. cbv zeta.
  destruct (re b * re b + im b * im b =? 0) eqn:Hden; [by split|].
  destruct (zero_combination _ _ _ _ Hre Him Hr Hi) as [H1 H2]. simpl.
  split; by apply zero_div_norm.
Qed.

Lemma divide_zero_numerator_witness :
  (re (divide (complex neg_zero 0) (complex 3 (-4))) =? 0) = true /\
  (im (divide (complex neg_zero 0) (complex 3 (-4))) =? 0) = true.
Proof. apply divide_zero_numerator; try split; reflexivity. Defined.

(** X4.  The zero-denominator guard does not catch [NaN]: when [b.re] or
    [b.im] is [NaN], [divide(a, b)] is [(NaN, NaN)] for every [a]. *)
Theorem divide_by_nan a b :
  re b = nan \/ im b = nan -> divide a b = complex nan nan.
Proof.
  intros Hb. unfold divide. cbv zeta.
  assert (re b * re b + im b * im b = nan) as ->.
  { destruct Hb as [-> | ->].
    - by rewrite mul_nan_l, add_nan_l.
    - by rewrite mul_nan_l, add_nan_r. }
  change (nan =? 0) with false. cbv iota. by rewrite !div_nan_r.
Qed.

Lemma divide_by_nan_witness :
  divide (complex 1 2) (complex nan 3) = complex nan nan.
Proof. apply divide_by_nan. left. reflexivity. Defined.

(** ** Natural units *)

(** X5.  With [H_BAR = MASS = 1] the constants never change a computed
    value: the phase angle is [px*dx + py*dy], the imaginary parts of the
    gradient factors are the momenta, and the velocity is the imaginary
    part of the quotient, bit for bit. *)
Theorem natural_units_are_exact M s1 s2 x y params :
  gaussianPacket M x y params =
    multiply
      (complex (Math_exp M (- ((x - centerX params) * (x - centerX params) +
                               (y - centerY params) * (y - centerY params))
                            / (4 * (width params * width params)))) 0)
      (complex
         (Math_cos M (momentumX params * (x - centerX params) +
                      momentumY params * (y - centerY params)))
         (Math_sin M (momentumX params * (x - centerX params) +
                      momentumY params * (y - centerY params)))) /\
  gaussianPacketGradient M x y params =
    (multiply (gaussianPacket M x y params)
       (complex (- (x - centerX params) / (2 * (width params * width params)))
                (momentumX params)),
     multiply (gaussianPacket M x y params)
       (complex (- (y - centerY params) / (2 * (width params * width params)))
                (momentumY params))) /\
  velocityX M s1 s2 x y =
    im (divide (fst (totalGradPsi M s1 s2 x y)) (totalPsi M s1 s2 x y)) /\
  velocityY M s1 s2 x y =
    im (divide (snd (totalGradPsi M s1 s2 x y)) (totalPsi M s1 s2 x y)).
Proof.
  unfold velocityX, velocityY, gaussianPacketGradient, gaussianPacket.
  cbv zeta. change (H_BAR / MASS) with 1. unfold H_BAR.
  by rewrite !div_one_r, !mul_one_l.
Qed.

(** ** The packet at its centre *)

Lemma mul_zero_real v : finite v -> (v * 0 =? 0) = true.
Proof.
  intros Hv. rewrite float_mul_comm. by apply zero_times_real.
Qed.

Lemma sum_of_zeros a b :
  (a =? 0) = true -> (b =? 0) = true -> (a + b =? 0) = true.
Proof.
  intros Ha Hb. apply eqb_zero_spec in Ha, Hb. apply eqb_zero_spec.
  rewrite FloatAxioms.add_spec. by apply SFadd_zero.
Qed.

(** At its centre a packet is evaluated with the exponent [-0] and a phase
    angle that is a zero. *)
Lemma gaussianPacket_centre M params :
  finite (centerX params) ->
  finite (centerY params) ->
  finite (momentumX params) ->
  finite (momentumY params) ->
  (0 <? 4 * (width params * width params)) = true ->
  exists theta,
    (theta =? 0) = true /\
    gaussianPacket M (centerX params) (centerY params) params =
    multiply (complex (Math_exp M neg_zero) 0)
             (complex (Math_cos M theta) (Math_sin M theta)).
Proof.
  intros Hcx Hcy Hpx Hpy Hw.
  exists (momentumX params * 0 + momentumY params * 0). split.
  { apply sum_of_zeros; by apply mul_zero_real. }
  unfold gaussianPacket. cbv zeta.
  rewrite (sub_diag _ Hcx), (sub_diag _ Hcy).
  change (- (0 * 0 + 0 * 0)) with neg_zero.
  rewrite (neg_zero_div_positive _ Hw). unfold H_BAR. by rewrite div_one_r.
Qed.

(** X6.  On a host with the ECMAScript values of [exp], [cos] and [sin] at
    zero, a packet with finite centre and momentum whose [4*sigma^2] is
    positive (the square has not underflowed) has the value [(1, 0)] at
    its own centre. *)
Theorem packet_value_at_centre M params :
  ecma_zero_values M ->
  finite (centerX params) ->
  finite (centerY params) ->
  finite (momentumX params) ->
  finite (momentumY params) ->
  (0 <? 4 * (width params * width params)) = true ->
  gaussianPacket M (centerX params) (centerY params) params = complex 1 0.
Proof.
  intros [He0 He1 Hc0 Hc1 Hs0 Hs1] Hcx Hcy Hpx Hpy Hw.
  destruct (gaussianPacket_centre M params Hcx Hcy Hpx Hpy Hw)
    as (theta & Htheta & ->).
  destruct (zero_cases theta Htheta) as [-> | ->].
  - change 0 with zero. rewrite He1, Hc0, Hs0. reflexivity.
  - rewrite He1, Hc1, Hs1. reflexivity.
Qed.

Lemma packet_value_at_centre_witness :
  gaussianPacket sampleMath 0 1.5 (mkPacket 0 1.5 1.0 0 5) = complex 1 0.
Proof.
  apply (packet_value_at_centre sampleMath (mkPacket 0 1.5 1.0 0 5));
    try reflexivity.
  split; reflexivity.
Defined.

Lemma add_neg_zero_r v : v + neg_zero = v.
Proof.
  apply Prim2SF_inj. rewrite FloatAxioms.add_spec.
  by destruct (Prim2SF v) as [[]|s| |s m e].
Qed.

Lemma sub_zero_same v z : (z =? 0) = true -> sameNumber (v - z) v.
Proof.
  intros Hz%eqb_zero_spec. unfold sameNumber.
  destruct (Prim2SF z) as [sz| | |] eqn:Ez; try done.
  destruct (Prim2SF v) as [sv|sv| |sv mv ev] eqn:Ev.
  - right. rewrite FloatAxioms.eqb_spec, FloatAxioms.sub_spec, Ez, Ev.
    by destruct sv, sz.
  - left. apply Prim2SF_inj. by rewrite FloatAxioms.sub_spec, Ez, Ev.
  - left. apply Prim2SF_inj. by rewrite FloatAxioms.sub_spec, Ez, Ev.
  - left. apply Prim2SF_inj. by rewrite FloatAxioms.sub_spec, Ez, Ev.
Qed.

Lemma add_zero_same v z : (z =? 0) = true -> sameNumber (v + z) v.
Proof.
  intros Hz%eqb_zero_spec. unfold sameNumber.
  destruct (Prim2SF z) as [sz| | |] eqn:Ez; try done.
  destruct (Prim2SF v) as [sv|sv| |sv mv ev] eqn:Ev.
  - right. rewrite FloatAxioms.eqb_spec, FloatAxioms.add_spec, Ez, Ev.
    by destruct sv, sz.
  - left. apply Prim2SF_inj. by rewrite FloatAxioms.add_spec, Ez, Ev.
  - left. apply Prim2SF_inj. by rewrite FloatAxioms.add_spec, Ez, Ev.
  - left. apply Prim2SF_inj. by rewrite FloatAxioms.add_spec, Ez, Ev.
Qed.

(** X15.  Under the hypotheses of X6, with [2*sigma^2] positive as well, the
    gradient of a packet at its own centre is [i] times the momentum: the
    real parts are [=== 0] and the imaginary parts are [momentumX] and
    [momentumY]. *)
Theorem packet_gradient_at_centre M params :
  ecma_zero_values M ->
  finite (centerX params) ->
  finite (centerY params) ->
  finite (momentumX params) ->
  finite (momentumY params) ->
  (0 <? 4 * (width params * width params)) = true ->
  (0 <? 2 * (width params * width params)) = true ->
  let grad := gaussianPacketGradient M (centerX params) (centerY params) params in
  (re (fst grad) =? 0) = true /\ im (fst grad) = momentumX params /\
  (re (snd grad) =? 0) = true /\ im (snd grad) = momentumY params.
Proof.
  intros Hz Hcx Hcy Hpx Hpy Hw4 Hw2. cbv zeta.
  unfold gaussianPacketGradient. cbv zeta.
  assert (gaussianPacket M (centerX params) (centerY params) params = complex 1 0)
    as ->.
  { destruct Hz as [He0 He1 Hc0 Hc1 Hs0 Hs1].
    destruct (gaussianPacket_centre M params Hcx Hcy Hpx Hpy Hw4)
      as (theta & Htheta & ->).
    destruct (zero_cases theta Htheta) as [-> | ->].
    - change 0 with zero. rewrite He1, Hc0, Hs0. reflexivity.
    - rewrite He1, Hc1, Hs1. reflexivity. }
  rewrite (sub_diag _ Hcx), (sub_diag _ Hcy).
  change (- 0) with neg_zero. rewrite (neg_zero_div_positive _ Hw2).
  unfold H_BAR. rewrite !div_one_r.
  unfold multiply, complex. cbn [fst snd re im].
  rewrite !mul_one_l. change (0 * neg_zero) with neg_zero.
  rewrite !add_neg_zero_r.
  assert (forall v, finite v -> (neg_zero - 0 * v =? 0) = true) as Hre.
  { intros v Hv. apply eqb_zero_spec. rewrite FloatAxioms.sub_spec.
    apply SFsub_zero; [done|]. apply eqb_zero_spec. by apply zero_times_real. }
  repeat split; by apply Hre.
Qed.

Lemma packet_gradient_at_centre_witness :
  let grad := gaussianPacketGradient sampleMath 0 1.5 (mkPacket 0 1.5 1.0 0 5) in
  (re (fst grad) =? 0) = true /\ im (fst grad) = 0 /\
  (re (snd grad) =? 0) = true /\ im (snd grad) = 5.
Proof.
  apply (packet_gradient_at_centre sampleMath (mkPacket 0 1.5 1.0 0 5));
    try reflexivity.
  split; reflexivity.
Defined.

(** X16.  Multiplying the phase by the real magnitude only scales it: when
    the host's [cos] and [sin] of the phase angle are finite, the packet
    value is [(magnitude * cos, magnitude * sin)] up to the sign of a
    zero. *)
Theorem packet_is_scaled_phase M x y params :
  let magnitude :=
    Math_exp M (- ((x - centerX params) * (x - centerX params) +
                   (y - centerY params) * (y - centerY params))
                / (4 * (width params * width params))) in
  let phaseAngle :=
    (momentumX params * (x - centerX params) +
     momentumY params * (y - centerY params)) / H_BAR in
  finite (Math_cos M phaseAngle) ->
  finite (Math_sin M phaseAngle) ->
  sameNumber (re (gaussianPacket M x y params)) (magnitude * Math_cos M phaseAngle) /\
  sameNumber (im (gaussianPacket M x y params)) (magnitude * Math_sin M phaseAngle).
Proof.
  cbv zeta. intros Hc Hs. unfold gaussianPacket, multiply, complex.
  cbv zeta. cbn [re im].
  split.
  - apply sub_zero_same. by apply zero_times_real.
  - apply add_zero_same. by apply zero_times_real.
Qed.

Lemma packet_is_scaled_phase_witness :
  sameNumber (re (gaussianPacket sampleMath 0 0 (mkPacket 0 1.5 1.0 0 5)))
    (Math_exp sampleMath (-0.5625) * Math_cos sampleMath (-7.5)) /\
  sameNumber (im (gaussianPacket sampleMath 0 0 (mkPacket 0 1.5 1.0 0 5)))
    (Math_exp sampleMath (-0.5625) * Math_sin sampleMath (-7.5)).
Proof.
  apply (packet_is_scaled_phase sampleMath 0 0 (mkPacket 0 1.5 1.0 0 5));
    reflexivity.
Defined.

(** ** The trajectory as a whole *)

Section RunFacts.

Variable M : MathLib.

Lemma totalPsi_swap s1 s2 x y : totalPsi M s2 s1 x y = totalPsi M s1 s2 x y.
Proof. unfold totalPsi. apply add_comm_complex. Qed.

Lemma totalGradPsi_swap s1 s2 x y :
  totalGradPsi M s2 s1 x y = totalGradPsi M s1 s2 x y.
Proof.
  unfold totalGradPsi. cbv zeta.
  by rewrite (add_comm_complex (fst (gaussianPacketGradient M x y s2))),
             (add_comm_complex (snd (gaussianPacketGradient M x y s2))).
Qed.

Lemma eulerStep_swap s1 s2 d t p :
  eulerStep M s2 s1 d t p = eulerStep M s1 s2 d t p.
Proof.
  unfold eulerStep, velocityX, velocityY. cbv zeta.
  by rewrite totalPsi_swap, totalGradPsi_swap.
Qed.

Lemma simulationLoop_swap n s1 s2 d t p acc :
  simulationLoop M n s2 s1 d t p acc = simulationLoop M n s1 s2 d t p acc.
Proof.
  revert t p acc. induction n as [|n IH]; intros t p acc; [done|].
  cbn [simulationLoop]. rewrite eulerStep_swap.
  destruct (eulerStep M s1 s2 d t p) as [t' p']. apply IH.
Qed.

Lemma laterPoints_app a b s1 s2 d t p :
  laterPoints M (a + b) s1 s2 d t p =
  laterPoints M a s1 s2 d t p ++
  laterPoints M b s1 s2 d (fst (stateAfter M a s1 s2 d t p))
                          (snd (stateAfter M a s1 s2 d t p)).
Proof.
  revert t p. induction a as [|a IH]; intros t p; [done|].
  cbn [Nat.add laterPoints stateAfter].
  destruct (eulerStep M s1 s2 d t p) as [t' p']. by rewrite IH.
Qed.

Lemma stateAfter_add a b s1 s2 d t p :
  stateAfter M (a + b) s1 s2 d t p =
  stateAfter M b s1 s2 d (fst (stateAfter M a s1 s2 d t p))
                         (snd (stateAfter M a s1 s2 d t p)).
Proof.
  revert t p. induction a as [|a IH]; intros t p; [done|].
  cbn [Nat.add stateAfter].
  destruct (eulerStep M s1 s2 d t p) as [t' p']. apply IH.
Qed.

(** The position does not depend on the clock. *)
Lemma stateAfter_position k s1 s2 d t t' p :
  snd (stateAfter M k s1 s2 d t p) = snd (stateAfter M k s1 s2 d t' p).
Proof.
  revert t t' p. induction k as [|k IH]; intros t t' p; [done|].
  cbn [stateAfter]. unfold eulerStep. cbv zeta. apply IH.
Qed.

Lemma clock_nonneg k d : (0 <=? d) = true -> (0 <=? clock k d) = true.
Proof.
  intros Hd. induction k as [|k IH]; [reflexivity|].
  apply leb_zero_spec in Hd, IH. apply leb_zero_spec.
  cbn [clock]. rewrite FloatAxioms.add_spec. by apply SFadd_nonneg.
Qed.

Lemma position_x_nan k b s1 s2 d t p :
  pos_x (snd (stateAfter M k s1 s2 d t p)) = nan ->
  pos_x (snd (stateAfter M (k + b) s1 s2 d t p)) = nan.
Proof.
  intros Hk. induction b as [|b IH].
  - by rewrite Nat.add_0_r.
  - rewrite Nat.add_succ_r, stateAfter_succ. unfold eulerStep. cbv zeta.
    cbn [snd pos_x]. by rewrite IH, add_nan_l.
Qed.

Lemma position_y_nan k b s1 s2 d t p :
  pos_y (snd (stateAfter M k s1 s2 d t p)) = nan ->
  pos_y (snd (stateAfter M (k + b) s1 s2 d t p)) = nan.
Proof.
  intros Hk. induction b as [|b IH].
  - by rewrite Nat.add_0_r.
  - rewrite Nat.add_succ_r, stateAfter_succ. unfold eulerStep. cbv zeta.
    cbn [snd pos_y]. by rewrite IH, add_nan_l.
Qed.

End RunFacts.

Lemma lookup_run_bound M config k p :
  runSimulation M config !! k = Some p -> (k <= Z.to_nat (steps config))%nat.
Proof.
  intros Hp. apply lookup_lt_Some in Hp. rewrite runSimulation_length in Hp. lia.
Qed.

(** X7.  Exchanging [slit1] and [slit2] does not change the trajectory. *)
Theorem swapping_slits_same_trajectory M config :
  runSimulation M (swapSlits config) = runSimulation M config.
Proof. unfold runSimulation, swapSlits. simpl. apply simulationLoop_swap. Qed.

(** X8.  A run with fewer steps returns the beginning of the run with more
    steps: the trajectory for [n] steps is a prefix of the one for [n'],
    [n <= n']. *)
Theorem fewer_steps_give_a_prefix M config n n' :
  (n <= n')%Z ->
  runSimulation M (withSteps config n) `prefix_of`
  runSimulation M (withSteps config n').
Proof.
  intros Hn. rewrite !runSimulation_unfold. unfold withSteps, initialSample. simpl.
  replace (Z.to_nat n') with (Z.to_nat n + (Z.to_nat n' - Z.to_nat n))%nat by lia.
  rewrite laterPoints_app. eexists. by rewrite app_comm_cons.
Qed.

Lemma fewer_steps_give_a_prefix_witness :
  runSimulation sampleMath (withSteps exampleConfig 2) `prefix_of`
  runSimulation sampleMath (withSteps exampleConfig 500).
Proof. apply fewer_steps_give_a_prefix. lia. Defined.

(** X9.  The path is autonomous: a run started at the position of sample
    [n], for the remaining steps, follows the rest of the original path bit
    for bit (its times start again at [0]). *)
Theorem restart_follows_the_path M config n p :
  runSimulation M config !! n = Some p ->
  positions (runSimulation M (restartAt config p (steps config - Z.of_nat n))) =
  drop n (positions (runSimulation M config)).
Proof.
  intros Hp. pose proof (lookup_run_bound _ _ _ _ Hp) as Hn.
  rewrite runSimulation_lookup in Hp by done. injection Hp as <-.
  apply list_eq. intros k. unfold positions.
  rewrite lookup_drop, !list_lookup_fmap.
  destruct (decide (n + k <= Z.to_nat (steps config))%nat) as [Hk|Hk].
  - rewrite !runSimulation_lookup by (simpl; lia). simpl.
    rewrite stateAfter_add.
    rewrite (stateAfter_position M k _ _ _ 0
               (fst (stateAfter M n (slit1 config) (slit2 config) (dt config) 0
                       (initialPosition config)))).
    by destruct (snd (stateAfter M n _ _ _ _ _)).
  - rewrite !lookup_ge_None_2; [done| |];
      rewrite runSimulation_length; simpl; lia.
Qed.

Lemma restart_follows_the_path_witness :
  positions
    (runSimulation sampleMath
       (restartAt tenthConfig (mkPoint 0.1 (-0.5) (-4.5029670997962024))
          (steps tenthConfig - Z.of_nat 1))) =
  drop 1 (positions (runSimulation sampleMath tenthConfig)).
Proof. apply (restart_follows_the_path sampleMath tenthConfig 1). reflexivity. Defined.

(** X10.  [NaN] is absorbing: once a sample has [x] equal to [NaN], every
    later sample has, and likewise for [y]. *)
Theorem nan_coordinates_persist M config i j p q :
  (i <= j)%nat ->
  runSimulation M config !! i = Some p ->
  runSimulation M config !! j = Some q ->
  (pt_x p = nan -> pt_x q = nan) /\ (pt_y p = nan -> pt_y q = nan).
Proof.
  intros Hij Hp Hq.
  pose proof (lookup_run_bound _ _ _ _ Hq) as Hj.
  rewrite runSimulation_lookup in Hp, Hq by lia.
  injection Hp as <-. injection Hq as <-.
  replace j with (i + (j - i))%nat by lia. simpl.
  split; [apply position_x_nan | apply position_y_nan].
Qed.

Lemma nan_coordinates_persist_witness :
  exists q,
    runSimulation sampleMath hugeStepConfig !! 3%nat = Some q /\
    pt_x q = nan /\ pt_y q = nan.
Proof.
  exists (mkPoint infinity nan nan). split; [reflexivity|].
  destruct (nan_coordinates_persist sampleMath hugeStepConfig 2 3
              (mkPoint infinity nan nan) (mkPoint infinity nan nan))
    as [Hx Hy]; [lia|reflexivity|reflexivity|].
  split; [apply Hx | apply Hy]; reflexivity.
Defined.

(** X11.  With [dt >= 0] every time stamp is a non-negative number or
    [Infinity], never [NaN] and never negative. *)
Theorem time_stamps_are_non_negative M config k p :
  (0 <=? dt config) = true ->
  runSimulation M config !! k = Some p ->
  (0 <=? pt_t p) = true.
Proof.
  intros Hd Hp. rewrite (runSimulation_time _ _ _ _ Hp). by apply clock_nonneg.
Qed.

Lemma time_stamps_are_non_negative_witness :
  exists p,
    runSimulation sampleMath tenthConfig !! 3%nat = Some p /\
    (0 <=? pt_t p) = true.
Proof.
  eexists. split; [reflexivity|].
  apply (time_stamps_are_non_negative sampleMath tenthConfig 3); reflexivity.
Defined.

(** ** Invariants of a run *)

Lemma zero_is_not_neg_zero : 0 <> neg_zero.
Proof.
  intros H. apply (f_equal Prim2SF) in H. vm_compute in H. discriminate H.
Qed.

(** X12.  A particle that starts at a node of the wave function never
    moves: when [totalPsi] is [(0, 0)] at the initial position ([dt] a
    positive real, the coordinates not [-0]), every sample of the
    trajectory has the initial [x] and [y]. *)
Theorem particle_at_node_stays M config :
  positive_real (dt config) ->
  pos_x (initialPosition config) <> neg_zero ->
  pos_y (initialPosition config) <> neg_zero ->
  (re (totalPsi M (slit1 config) (slit2 config)
         (pos_x (initialPosition config)) (pos_y (initialPosition config))) =? 0)
    = true ->
  (im (totalPsi M (slit1 config) (slit2 config)
         (pos_x (initialPosition config)) (pos_y (initialPosition config))) =? 0)
    = true ->
  forall k p,
    runSimulation M config !! k = Some p ->
    pt_x p = pos_x (initialPosition config) /\
    pt_y p = pos_y (initialPosition config).
Proof.
  intros Hdt Hx Hy Hre Him k p Hp.
  pose proof (lookup_run_bound _ _ _ _ Hp) as Hk.
  rewrite runSimulation_lookup in Hp by done. injection Hp as <-. simpl.
  clear Hk. induction k as [|k [IHx IHy]]; [done|].
  rewrite stateAfter_succ. unfold eulerStep. cbv zeta. cbn [snd pos_x pos_y].
  rewrite IHx, IHy.
  destruct (velocity_at_node M _ _ _ _ Hre Him) as [-> ->].
  rewrite (zero_times_positive_real _ Hdt).
  by rewrite (add_zero_r _ Hx), (add_zero_r _ Hy).
Qed.

Lemma particle_at_node_stays_witness :
  exists p,
    runSimulation sampleMath farConfig !! 2%nat = Some p /\
    pt_x p = 1e200 /\ pt_y p = 0.
Proof.
  exists (mkPoint 0.04 1e200 0). split; [reflexivity|].
  refine (particle_at_node_stays sampleMath farConfig _ _ _ _ _ 2 _ _);
    try reflexivity.
  - split; reflexivity.
  - intros H. apply (f_equal Prim2SF) in H. vm_compute in H. discriminate H.
  - exact zero_is_not_neg_zero.
Defined.



(** ** Runs on the store do not interfere *)

Lemma holds_config_insert_fresh st ref config o :
  holds_config st ref config ->
  holds_config (<[fresh (dom st) := o]> st) ref config.
Proof.
  intros (ip & r1 & r2 & Hc & Hip & H1 & H2).
  assert (st !! fresh (dom st) = None) as Hfresh.
  { apply not_elem_of_dom, is_fresh. }
  exists ip, r1, r2.
  repeat split; (rewrite lookup_insert_ne; [done|congruence]).
Qed.

(** X14.  Runs do not interfere through the store: a second run on the
    store that the first one leaves returns the same trajectory, and so
    does every later one. *)
Theorem repeated_runs_agree M st ref config :
  holds_config st ref config ->
  exists st1 st2,
    runSimulationS M ref st = Some (runSimulation M config, st1) /\
    runSimulationS M ref st1 = Some (runSimulation M config, st2) /\
    holds_config st2 ref config.
Proof.
  intros Hst.
  pose proof (holds_config_insert_fresh st ref config
    (PositionObj (snd (stateAfter M (Z.to_nat (steps config))
                         (slit1 config) (slit2 config) (dt config)
                         0 (initialPosition config)))) Hst) as Hst1.
  eexists _, _. split; [by apply runSimulationS_run|].
  split; [by apply runSimulationS_run|].
  by apply holds_config_insert_fresh.
Qed.

Lemma repeated_runs_agree_witness :
  exists st1 st2,
    runSimulationS sampleMath 1 exampleStore =
      Some (runSimulation sampleMath tenthConfig, st1) /\
    runSimulationS sampleMath 1 st1 =
      Some (runSimulation sampleMath tenthConfig, st2) /\
    holds_config st2 1 tenthConfig.
Proof.
  apply (repeated_runs_agree sampleMath exampleStore 1 tenthConfig).
  exists 2%positive, 3%positive, 4%positive. repeat split; reflexivity.
Defined.
